(** * SyncLocalStorage: a namespaced, serializing wrapper around LocalStorage

    Shallow embedding of [src/SyncLocalStorage.js].  The wrapped
    [localStorage] object is shared mutable state: it is threaded through
    every method as a [World], together with the list of calls made on it.
    Methods live in a small state-and-exception monad [M]. *)

From Stdlib Require Import String Ascii List Arith Bool Lia ZArith.
Import ListNotations.
Local Open Scope list_scope.
Local Open Scope string_scope.

(** ** JavaScript string primitives used by the source *)

Module JS.

(** [s.length] *)
Definition length (s : string) : nat := String.length s.

(** [s.substr(start, len)] with [0 <= start]: at most [len] characters
    from position [start]; shorter when the string ends first. *)
Definition substr (s : string) (start len : nat) : string :=
  String.substring start len s.

(** [s.indexOf(c)] for a one-character search string: position of the
    first occurrence, [-1] when there is none. *)
Fixpoint indexOf (c : ascii) (s : string) : Z :=
  match s with
  | EmptyString => (-1)%Z
  | String a s' =>
      if Ascii.eqb a c then 0%Z
      else let r := indexOf c s' in
           if (r <? 0)%Z then (-1)%Z else (r + 1)%Z
  end.

Fixpoint drop (n : nat) (s : string) : string :=
  match n, s with
  | O, _ => s
  | S _, EmptyString => EmptyString
  | S n', String _ s' => drop n' s'
  end.

(** [s.substr(start)]: everything from [start] on; a negative [start]
    counts from the end of the string. *)
Definition substr_from (s : string) (start : Z) : string :=
  let from :=
    if (start <? 0)%Z then Z.max (Z.of_nat (length s) + start) 0 else start in
  drop (Z.to_nat from) s.

(** [s.split(c)] for a one-character separator. *)
Fixpoint split (c : ascii) (s : string) : list string :=
  match s with
  | EmptyString => [EmptyString]
  | String a s' =>
      if Ascii.eqb a c then EmptyString :: split c s'
      else match split c s' with
           | seg :: rest => String a seg :: rest
           | [] => [String a EmptyString]
           end
  end.

(** [a.push(x)] *)
Definition push {A} (a : list A) (x : A) : list A := (a ++ [x])%list.

End JS.

Definition dot : ascii := "."%char.

(** ** The backend: an object implementing the LocalStorage API

    An ordered list of key/value pairs; [key(i)] is the key of the [i]-th
    pair.  [setItem] overwrites in place or appends, [removeItem] deletes
    the pair (later pairs move one index down). *)

Definition Entries := list (string * string).

Inductive Call : Type :=
| CLength
| CKey (i : nat)
| CGetItem (k : string)
| CSetItem (k v : string)
| CRemoveItem (k : string).

Record World : Type := mkWorld {
  items : Entries;
  calls : list Call
}.

Definition logged (c : Call) (w : World) : World :=
  mkWorld (items w) (calls w ++ [c])%list.

Fixpoint lookup (k : string) (es : Entries) : option string :=
  match es with
  | [] => None
  | (k', v) :: es' => if String.eqb k' k then Some v else lookup k es'
  end.

Fixpoint store (k v : string) (es : Entries) : Entries :=
  match es with
  | [] => [(k, v)]
  | (k', v') :: es' =>
      if String.eqb k' k then (k, v) :: es' else (k', v') :: store k v es'
  end.

Definition discard (k : string) (es : Entries) : Entries :=
  filter (fun e => negb (String.eqb (fst e) k)) es.

Definition physical_keys (es : Entries) : list string := map fst es.

(** A backend never holds two pairs under one key. *)
Definition well_formed (es : Entries) : Prop := NoDup (physical_keys es).

(** ** Exceptions and the method monad *)

Inductive Exn : Type :=
| Error (message : string)
| TypeError (message : string).

Inductive Outcome (A : Type) : Type :=
| Return (a : A)
| Throw (e : Exn).

Arguments Return {A} a.
Arguments Throw {A} e.

Definition M (A : Type) : Type := World -> Outcome A * World.

Definition ret {A} (a : A) : M A := fun w => (Return a, w).

Definition throw {A} (e : Exn) : M A := fun w => (Throw e, w).

Definition bind {A B} (m : M A) (f : A -> M B) : M B :=
  fun w =>
    match m w with
    | (Return a, w') => f a w'
    | (Throw e, w') => (Throw e, w')
    end.

Notation "x <- m ;; k" := (bind m (fun x => k))
  (at level 61, m at next level, right associativity).

(** [for (i = start; i < start + n; i++) acc = body(i, acc)] *)
Fixpoint for_range {S} (n i : nat) (body : nat -> S -> M S) (acc : S) : M S :=
  match n with
  | O => ret acc
  | S n' => acc' <- body i acc ;; for_range n' (i + 1) body acc'
  end.

Module LS.

(** [localStorage.length] *)
Definition length : M nat :=
  fun w => (Return (List.length (items w)), logged CLength w).

(** [localStorage.key(i)]: [null] when [i] is not a valid index. *)
Definition key (i : nat) : M (option string) :=
  fun w => (Return (nth_error (physical_keys (items w)) i), logged (CKey i) w).

(** [localStorage.getItem(k)]: [null] when [k] is absent. *)
Definition getItem (k : string) : M (option string) :=
  fun w => (Return (lookup k (items w)), logged (CGetItem k) w).

(** [localStorage.setItem(k, v)]; a backend that refuses the write (a
    full quota) is outside the model. *)
Definition setItem (k v : string) : M unit :=
  fun w => (Return tt, mkWorld (store k v (items w)) (calls w ++ [CSetItem k v])%list).

(** [localStorage.removeItem(k)] *)
Definition removeItem (k : string) : M unit :=
  fun w => (Return tt, mkWorld (discard k (items w)) (calls w ++ [CRemoveItem k])%list).

End LS.

(** ** SyncLocalStorage

    The module is a function of [buildRe], the export of
    [FindKeysReBuilder.js]: a compiled pattern is a predicate on keys,
    the result [false] of a failed compilation is [None]. *)

Record SyncLocalStorage (V : Type) : Type := mkSyncLocalStorage {
  _ns : string;
  _serialize : V -> string;
  _unserialize : option string -> V
}.

Arguments mkSyncLocalStorage {V} _ _ _.
Arguments _ns {V} _.
Arguments _serialize {V} _ _.
Arguments _unserialize {V} _ _.

(** [return this._ls.length;] *)
Definition getLength {V} (this : SyncLocalStorage V) : M nat := LS.length.

Section SyncLocalStorage.

Variable buildRe : string -> option (string -> bool).

Context {V : Type}.
Variable this : SyncLocalStorage V.

Definition setItem (k : string) (v : V) : M unit :=
  LS.setItem (_ns this ++ "." ++ k) (_serialize this v).

Definition key (i : nat) : M (option string) :=
  k <- LS.key i ;;
  match k with
  | None => ret None
  | Some k =>
      if (JS.length (_ns this) <? JS.length k)%nat
         && String.eqb (JS.substr k 0 (JS.length (_ns this) + 1)) (_ns this ++ ".")
      then ret (Some (JS.substr_from k (JS.indexOf dot k + 1)))
      else ret None
  end.

Definition getItem (k : string) : M V :=
  s <- LS.getItem (_ns this ++ "." ++ k) ;;
  ret (_unserialize this s).

Definition removeItem (k : string) : M unit :=
  LS.removeItem (_ns this ++ "." ++ k).

(** [while (keys.length) { this.removeItem(keys.shift()); }] *)
Fixpoint clear_drain (keys : list string) : M unit :=
  match keys with
  | [] => ret tt
  | k :: keys' => _ <- removeItem k ;; clear_drain keys'
  end.

Definition clear : M unit :=
  l <- getLength this ;;
  keys <- for_range l 0
            (fun i keys =>
               k <- key i ;;
               match k with
               | Some k => ret (JS.push keys k)
               | None => ret keys
               end) [] ;;
  clear_drain keys.

Definition keys : M (list (option string)) :=
  length <- getLength this ;;
  for_range length 0 (fun i r => k <- key i ;; ret (JS.push r k)) [].

Definition findKeys (pattern : string) : M (list string) :=
  match buildRe pattern with
  | None =>
      throw (Error ("You cannot find keys from the pattern '" ++ pattern ++ "'"))
  | Some re =>
      l <- LS.length ;;
      for_range l 0
        (fun i r =>
           k <- LS.key i ;;
           match k with
           | None => throw (TypeError "Cannot read properties of null")
           | Some k =>
               if (JS.length (_ns this) <? JS.length k)%nat
                  && String.eqb (JS.substr k 0 (JS.length (_ns this) + 1))
                                (_ns this ++ ".")
               then
                 let k := JS.substr_from k (JS.indexOf dot k + 1) in
                 if re k then ret (JS.push r k) else ret r
               else ret r
           end) []
  end.

End SyncLocalStorage.

(** ** Patterns

    A pattern and a key are compared segment by segment, the segments
    being the pieces between dots. *)

Definition segment_ok (p c : string) : Prop := p = "*" \/ p = c.

Definition segments_match (pattern candidate : string) : Prop :=
  Forall2 segment_ok (JS.split dot pattern) (JS.split dot candidate).

Fixpoint has_char (c : ascii) (s : string) : bool :=
  match s with
  | EmptyString => false
  | String a s' => Ascii.eqb a c || has_char c s'
  end.

Definition dotless (s : string) : Prop := has_char dot s = false.

(** Modelled from the spec: [FindKeysReBuilder.js], the pattern compiler
    the module receives as [buildRe], is not among the sources.  The spec
    (4.1) gives its contract: a compiled pattern accepts a key iff both have
    the same number of dot-separated segments and every pattern segment is
    [*] or equal to the key's segment; a malformed pattern (an empty
    pattern or an empty segment among them) yields the invalid result. *)
Definition PatternCompiler (buildRe : string -> option (string -> bool)) : Prop :=
  (forall p re, buildRe p = Some re ->
     forall k, re k = true <-> segments_match p k)
  /\ (forall p, In EmptyString (JS.split dot p) -> buildRe p = None).

Module FindKeysReBuilder.

Definition segment_okb (p c : string) : bool :=
  String.eqb p "*" || String.eqb p c.

Fixpoint all2 (ps cs : list string) : bool :=
  match ps, cs with
  | [], [] => true
  | p :: ps', c :: cs' => segment_okb p c && all2 ps' cs'
  | _, _ => false
  end.

Definition malformed (seg : string) : bool :=
  String.eqb seg EmptyString
  || (has_char "*"%char seg && negb (String.eqb seg "*")).

(** Modelled from the spec: an executable pattern compiler following
    4.1, rejecting the empty pattern, empty segments and a [*] inside a
    literal segment. *)
Definition buildRe (pattern : string) : option (string -> bool) :=
  let segs := JS.split dot pattern in
  if existsb malformed segs then None
  else Some (fun k => all2 segs (JS.split dot k)).

End FindKeysReBuilder.

(** ** The key derivation shared by [key], [keys], [clear] and [findKeys] *)

Definition in_namespace (ns k : string) : bool :=
  (JS.length ns <? JS.length k)%nat
  && String.eqb (JS.substr k 0 (JS.length ns + 1)) (ns ++ ".").

Definition after_first_dot (k : string) : string :=
  JS.substr_from k (JS.indexOf dot k + 1).

Definition derive (ns k : string) : option string :=
  if in_namespace ns k then Some (after_first_dot k) else None.

Definition derive_at (ns : string) (es : Entries) (i : nat) : option string :=
  match nth_error (physical_keys es) i with
  | Some k => derive ns k
  | None => None
  end.

Fixpoint somes {A} (l : list (option A)) : list A :=
  match l with
  | [] => []
  | Some a :: l' => a :: somes l'
  | None :: l' => somes l'
  end.

(** The keys the enumerations see, in backend order. *)
Definition namespace_keys (ns : string) (es : Entries) : list string :=
  somes (map (derive ns) (physical_keys es)).

Definition StartsWith (p s : string) : Prop := exists t, s = p ++ t.

(** [k] is what follows the first dot of [pk]. *)
Definition AfterFirstDot (pk k : string) : Prop :=
  exists a, dotless a /\ pk = a ++ "." ++ k.

(** The physical key under which [this] keeps the logical key [k]. *)
Definition physical {V} (this : SyncLocalStorage V) (k : string) : string :=
  _ns this ++ "." ++ k.

(** The entries that do not belong to the namespace of [this]. *)
Definition outside {V} (this : SyncLocalStorage V) (e : string * string) : bool :=
  negb (in_namespace (_ns this) (fst e)).

(** ** Running methods, and the stores and backends of the examples *)

Definition result {A} (m : M A) (w : World) : Outcome A := fst (m w).

Definition after {A} (m : M A) (w : World) : World := snd (m w).

(** An empty backend on which nothing has been called. *)
Definition fresh : World := mkWorld [] [].

(** A store of strings kept as they are; a missing value reads as
    [null]. *)
Definition text_store (ns : string) : SyncLocalStorage string :=
  mkSyncLocalStorage ns
    (fun v => v)
    (fun o => match o with Some s => s | None => "null" end).

Definition shop : SyncLocalStorage string := text_store "shop".

Definition shop_world : World :=
  after (setItem shop "cars.opel.medium" "3")
    (after (setItem shop "cars.ford.large" "2")
       (after (setItem shop "cars.bmw.large" "1") fresh)).

Definition ab_world : World :=
  after (setItem (text_store "n") "b.c" "2")
    (after (setItem (text_store "n") "a" "1") fresh).

Definition mixed_world : World :=
  after (setItem shop "y" "3")
    (after (setItem (text_store "other") "x" "2")
       (after (setItem shop "x" "1") fresh)).

(** The part of [s] before its first dot; [s] itself when it has none. *)
Fixpoint first_segment (s : string) : string :=
  match s with
  | EmptyString => EmptyString
  | String a s' =>
      if Ascii.eqb a dot then EmptyString else String a (first_segment s')
  end.

(** ** Strings *)

Lemma append_assoc (a b c : string) : (a ++ b) ++ c = a ++ (b ++ c).
Proof. induction a as [|x a IH]; simpl; [reflexivity | now rewrite IH]. Qed.

Lemma length_append (a b : string) :
  String.length (a ++ b) = String.length a + String.length b.
Proof. induction a as [|x a IH]; simpl; [reflexivity | now rewrite IH]. Qed.

Lemma append_inj_l (a b t : string) : a ++ t = b ++ t -> a = b.
Proof.
  revert b. induction a as [|x a IH]; intros [|y b] H; simpl in H.
  - reflexivity.
  - apply (f_equal String.length) in H. simpl in H.
    rewrite length_append in H. lia.
  - apply (f_equal String.length) in H. simpl in H.
    rewrite length_append in H. lia.
  - injection H as -> H. f_equal. now apply IH.
Qed.

Lemma substring_prefix (p t : string) :
  String.substring 0 (String.length p) (p ++ t) = p.
Proof.
  induction p as [|x p IH]; simpl.
  - now destruct t.
  - now rewrite IH.
Qed.

Lemma substring_split (n : nat) (s : string) :
  s = String.substring 0 n s ++ JS.drop n s.
Proof.
  revert s. induction n as [|n IH]; intros [|x s]; simpl; try reflexivity.
  now rewrite <- IH.
Qed.

Lemma drop_append (p t : string) : JS.drop (String.length p) (p ++ t) = t.
Proof. induction p as [|x p IH]; simpl; [reflexivity | exact IH]. Qed.

Lemma has_char_append (c : ascii) (a b : string) :
  has_char c (a ++ b) = has_char c a || has_char c b.
Proof.
  induction a as [|x a IH]; simpl; [reflexivity|].
  now rewrite IH, orb_assoc.
Qed.

Lemma indexOf_first (c : ascii) (a b : string) :
  has_char c a = false ->
  JS.indexOf c (a ++ String c b) = Z.of_nat (String.length a).
Proof.
  induction a as [|x a IH]; simpl; intros H.
  - now rewrite Ascii.eqb_refl.
  - apply orb_false_iff in H as [Hx Ha]. rewrite Hx, (IH Ha).
    destruct (Z.of_nat (String.length a) <? 0)%Z eqn:E; lia.
Qed.

Lemma has_char_split (c : ascii) (s : string) :
  has_char c s = true ->
  exists a b, has_char c a = false /\ s = a ++ String c b.
Proof.
  induction s as [|x s IH]; simpl; intros H; [discriminate|].
  destruct (Ascii.eqb x c) eqn:E.
  - apply Ascii.eqb_eq in E as ->. now exists EmptyString, s.
  - simpl in H. destruct (IH H) as (a & b & Ha & ->).
    exists (String x a), b. simpl. now rewrite E, Ha.
Qed.

Lemma after_first_dot_spec (a b : string) :
  dotless a -> after_first_dot (a ++ "." ++ b) = b.
Proof.
  intros Ha. unfold after_first_dot, JS.substr_from.
  change ("." ++ b) with (String dot b).
  rewrite (indexOf_first dot a b Ha).
  destruct (Z.ltb_spec (Z.of_nat (String.length a) + 1) 0); [lia|].
  replace (Z.to_nat (Z.of_nat (String.length a) + 1))
    with (String.length (a ++ ".")) by (rewrite length_append; simpl; lia).
  change (String dot b) with ("." ++ b).
  rewrite <- append_assoc. apply drop_append.
Qed.

Lemma in_namespace_iff (ns k : string) :
  in_namespace ns k = true <-> StartsWith (ns ++ ".") k.
Proof.
  unfold in_namespace, StartsWith, JS.length, JS.substr. split.
  - intros H. apply andb_true_iff in H as [_ H]. apply String.eqb_eq in H.
    exists (JS.drop (String.length ns + 1) k).
    rewrite <- H at 1. apply substring_split.
  - intros [t ->]. apply andb_true_iff. split.
    + apply Nat.ltb_lt. rewrite !length_append. simpl. lia.
    + apply String.eqb_eq.
      replace (String.length ns + 1) with (String.length (ns ++ "."))
        by (rewrite length_append; simpl; lia).
      apply substring_prefix.
Qed.

Lemma in_namespace_false_iff (ns k : string) :
  in_namespace ns k = false <-> ~ StartsWith (ns ++ ".") k.
Proof.
  rewrite <- in_namespace_iff. destruct (in_namespace ns k); split; congruence.
Qed.

Lemma StartsWith_first_dot (ns pk : string) :
  StartsWith (ns ++ ".") pk -> exists k, AfterFirstDot pk k.
Proof.
  intros [t ->].
  assert (H : has_char dot ((ns ++ ".") ++ t) = true).
  { rewrite !has_char_append. simpl. now rewrite orb_true_r. }
  destruct (has_char_split _ _ H) as (a & b & Ha & E).
  exists b, a. split; [exact Ha | exact E].
Qed.

Lemma derive_Some (ns pk k : string) :
  derive ns pk = Some k <-> StartsWith (ns ++ ".") pk /\ AfterFirstDot pk k.
Proof.
  unfold derive. destruct (in_namespace ns pk) eqn:E.
  - apply in_namespace_iff in E. split.
    + intros [= <-]. split; [exact E|].
      destruct (StartsWith_first_dot _ _ E) as (k' & a & Ha & ->).
      exists a. split; [exact Ha|]. now rewrite (after_first_dot_spec _ _ Ha).
    + intros [_ (a & Ha & ->)]. now rewrite (after_first_dot_spec _ _ Ha).
  - apply in_namespace_false_iff in E. split; [discriminate | tauto].
Qed.

Lemma derive_None (ns pk : string) :
  derive ns pk = None <-> ~ StartsWith (ns ++ ".") pk.
Proof.
  unfold derive. destruct (in_namespace ns pk) eqn:E.
  - apply in_namespace_iff in E. split; [discriminate | tauto].
  - apply in_namespace_false_iff in E. tauto.
Qed.

(** With a dotless namespace the first dot of a key of the namespace is
    the one that ends the namespace, and the derived key is the logical
    key. *)
Lemma derive_dotless (ns k : string) :
  dotless ns -> derive ns (ns ++ "." ++ k) = Some k.
Proof.
  intros Hns. apply derive_Some. split.
  - exists k. apply eq_sym, append_assoc.
  - exists ns. now split.
Qed.

Lemma derive_dotless_inv (ns pk k : string) :
  dotless ns -> derive ns pk = Some k -> pk = ns ++ "." ++ k.
Proof.
  intros Hns H. pose proof H as H0.
  apply derive_Some in H as [[t ->] _].
  rewrite append_assoc in H0 |- *. rewrite (derive_dotless _ _ Hns) in H0.
  now injection H0 as ->.
Qed.

(** ** The backend *)

Lemma lookup_store_same (k v : string) (es : Entries) :
  lookup k (store k v es) = Some v.
Proof.
  induction es as [|[k' v'] es IH]; simpl.
  - now rewrite String.eqb_refl.
  - destruct (String.eqb k' k) eqn:E; simpl.
    + now rewrite String.eqb_refl.
    + now rewrite E.
Qed.

Lemma lookup_store_other (k k' v : string) (es : Entries) :
  k <> k' -> lookup k' (store k v es) = lookup k' es.
Proof.
  intros Hk. induction es as [|[k0 v0] es IH]; simpl.
  - apply String.eqb_neq in Hk. now rewrite Hk.
  - destruct (String.eqb k0 k) eqn:E; simpl.
    + apply String.eqb_eq in E as ->.
      apply String.eqb_neq in Hk. now rewrite Hk.
    + now rewrite IH.
Qed.

Lemma lookup_discard_same (k : string) (es : Entries) :
  lookup k (discard k es) = None.
Proof.
  induction es as [|[k' v'] es IH]; simpl; [reflexivity|].
  destruct (String.eqb k' k) eqn:E; simpl; [exact IH|].
  now rewrite E.
Qed.

Lemma physical_keys_store (k v : string) (es : Entries) :
  physical_keys (store k v es) =
  if in_dec string_dec k (physical_keys es) then physical_keys es
  else (physical_keys es ++ [k])%list.
Proof.
  induction es as [|[k' v'] es IH]; simpl; [reflexivity|].
  destruct (String.eqb_spec k' k) as [->|Hne]; simpl.
  - destruct (string_dec k k); [|congruence].
    reflexivity.
  - rewrite IH. destruct (string_dec k' k); [congruence|].
    now destruct (in_dec string_dec k (physical_keys es)).
Qed.

Lemma physical_keys_discard (k : string) (es : Entries) :
  physical_keys (discard k es) =
  filter (fun k' => negb (String.eqb k' k)) (physical_keys es).
Proof.
  induction es as [|[k' v'] es IH]; simpl; [reflexivity|].
  destruct (String.eqb k' k); simpl; now rewrite IH.
Qed.

Lemma well_formed_store (k v : string) (es : Entries) :
  well_formed es -> well_formed (store k v es).
Proof.
  unfold well_formed. rewrite physical_keys_store.
  destruct (in_dec string_dec k (physical_keys es)) as [|Hn]; [tauto|].
  intros H. apply NoDup_app; [exact H | repeat constructor; simpl; tauto |].
  intros a Ha [<-|[]]. tauto.
Qed.

Lemma well_formed_discard (k : string) (es : Entries) :
  well_formed es -> well_formed (discard k es).
Proof.
  unfold well_formed. rewrite physical_keys_discard. apply NoDup_filter.
Qed.

(** The worlds the methods build from a well-formed backend are well
    formed. *)
Lemma LS_setItem_well_formed (k v : string) (w : World) :
  well_formed (items w) -> well_formed (items (snd (LS.setItem k v w))).
Proof. apply well_formed_store. Qed.

Lemma LS_removeItem_well_formed (k : string) (w : World) :
  well_formed (items w) -> well_formed (items (snd (LS.removeItem k w))).
Proof. apply well_formed_discard. Qed.

Lemma nth_error_seq_all {A} (l : list A) :
  map (nth_error l) (seq 0 (List.length l)) = map Some l.
Proof.
  induction l as [|a l IH]; simpl; [reflexivity|].
  f_equal. rewrite <- seq_shift, map_map. exact IH.
Qed.

(** ** What the methods compute *)

Section Runs.

Context {V : Type}.
Variable this : SyncLocalStorage V.

Let ns := _ns this.

Lemma key_run (i : nat) (w : World) :
  key this i w = (Return (derive_at ns (items w) i), logged (CKey i) w).
Proof.
  unfold key, bind, LS.key, derive_at, derive, in_namespace, after_first_dot.
  fold ns. destruct (nth_error (physical_keys (items w)) i) as [k|]; simpl.
  - now destruct (_ && _).
  - reflexivity.
Qed.

Lemma keys_loop (n i : nat) (r : list (option string)) (w : World) :
  for_range n i (fun i r => k <- key this i ;; ret (JS.push r k)) r w =
  (Return (r ++ map (derive_at ns (items w)) (seq i n))%list,
   mkWorld (items w) (calls w ++ map CKey (seq i n))%list).
Proof.
  revert i r w. induction n as [|n IH]; intros i r w; simpl.
  - unfold ret. rewrite !app_nil_r. now destruct w.
  - unfold bind at 1. unfold bind at 1. rewrite key_run. unfold ret at 1.
    rewrite IH. simpl. unfold JS.push.
    rewrite <- !app_assoc. simpl. now rewrite Nat.add_1_r.
Qed.

Lemma derive_at_all (es : Entries) :
  map (derive_at ns es) (seq 0 (List.length es)) =
  map (derive ns) (physical_keys es).
Proof.
  unfold derive_at.
  rewrite <- (map_map (nth_error (physical_keys es))
                (fun o => match o with Some k => derive ns k | None => None end)).
  replace (List.length es) with (List.length (physical_keys es))
    by apply length_map.
  rewrite nth_error_seq_all, map_map. reflexivity.
Qed.

Lemma keys_run (w : World) :
  keys this w =
  (Return (map (derive ns) (physical_keys (items w))),
   mkWorld (items w)
     (calls w ++ CLength :: map CKey (seq 0 (List.length (items w))))%list).
Proof.
  unfold keys, getLength, LS.length. unfold bind at 1.
  rewrite keys_loop. simpl. rewrite derive_at_all.
  now rewrite <- app_assoc.
Qed.

Lemma collect_loop (n i : nat) (r : list string) (w : World) :
  for_range n i
    (fun i keys =>
       k <- key this i ;;
       match k with
       | Some k => ret (JS.push keys k)
       | None => ret keys
       end) r w =
  (Return (r ++ somes (map (derive_at ns (items w)) (seq i n)))%list,
   mkWorld (items w) (calls w ++ map CKey (seq i n))%list).
Proof.
  revert i r w. induction n as [|n IH]; intros i r w; simpl.
  - unfold ret. rewrite !app_nil_r. now destruct w.
  - unfold bind at 1. unfold bind at 1. rewrite key_run.
    destruct (derive_at ns (items w) i) as [k|]; unfold ret at 1;
      rewrite IH; simpl; unfold JS.push;
      rewrite <- !app_assoc; simpl; now rewrite Nat.add_1_r.
Qed.

Lemma drain_run (ks : list string) (w : World) :
  clear_drain this ks w =
  (Return tt,
   mkWorld (fold_left (fun es k => discard (physical this k) es) ks (items w))
     (calls w ++ map (fun k => CRemoveItem (physical this k)) ks)%list).
Proof.
  revert w. induction ks as [|k ks IH]; intros w; simpl.
  - unfold ret. rewrite app_nil_r. now destruct w.
  - unfold bind, removeItem, LS.removeItem. rewrite IH. simpl.
    now rewrite <- app_assoc.
Qed.

Lemma clear_run (w : World) :
  clear this w =
  (Return tt,
   mkWorld
     (fold_left (fun es k => discard (physical this k) es)
        (namespace_keys ns (items w)) (items w))
     (calls w ++ CLength :: map CKey (seq 0 (List.length (items w)))
        ++ map (fun k => CRemoveItem (physical this k))
             (namespace_keys ns (items w)))%list).
Proof.
  unfold clear, getLength, LS.length. unfold bind at 1. unfold bind at 1.
  rewrite collect_loop. simpl. rewrite drain_run. simpl.
  rewrite derive_at_all. unfold namespace_keys.
  now rewrite <- !app_assoc.
Qed.

End Runs.

Lemma In_somes_map {A B} (f : A -> option B) (l : list A) (b : B) :
  In b (somes (map f l)) <-> exists a, In a l /\ f a = Some b.
Proof.
  induction l as [|x l IH]; simpl.
  - split; [tauto | now intros (a & [] & _)].
  - destruct (f x) as [y|] eqn:E; simpl; rewrite IH; split.
    + intros [<-|(a & Ha & Hf)]; [now exists x; auto | exists a; auto].
    + intros (a & [<-|Ha] & Hf); [left; congruence | right; now exists a].
    + intros (a & Ha & Hf). exists a; auto.
    + intros (a & [<-|Ha] & Hf); [congruence | now exists a].
Qed.

Lemma In_namespace_keys (ns : string) (es : Entries) (k : string) :
  In k (namespace_keys ns es) <->
  exists pk, In pk (physical_keys es)
             /\ StartsWith (ns ++ ".") pk /\ AfterFirstDot pk k.
Proof.
  unfold namespace_keys. rewrite In_somes_map.
  split; intros (pk & Hin & H); exists pk; split; auto; now apply derive_Some.
Qed.

Lemma In_namespace_keys_dotless (ns : string) (es : Entries) (k : string) :
  dotless ns ->
  In k (namespace_keys ns es) <-> In (ns ++ "." ++ k) (physical_keys es).
Proof.
  intros Hns. unfold namespace_keys. rewrite In_somes_map. split.
  - intros (pk & Hin & H). now rewrite <- (derive_dotless_inv _ _ _ Hns H).
  - intros Hin. exists (ns ++ "." ++ k). split; [exact Hin|].
    now apply derive_dotless.
Qed.

Section FindKeys.

Variable buildRe : string -> option (string -> bool).
Context {V : Type}.
Variable this : SyncLocalStorage V.

Let ns := _ns this.

Lemma findKeys_loop (re : string -> bool) (n i : nat) (r : list string) (w : World) :
  i + n <= List.length (items w) ->
  for_range n i
    (fun i r =>
       k <- LS.key i ;;
       match k with
       | None => throw (TypeError "Cannot read properties of null")
       | Some k =>
           if (JS.length (_ns this) <? JS.length k)%nat
              && String.eqb (JS.substr k 0 (JS.length (_ns this) + 1))
                            (_ns this ++ ".")
           then
             let k := JS.substr_from k (JS.indexOf dot k + 1) in
             if re k then ret (JS.push r k) else ret r
           else ret r
       end) r w =
  (Return (r ++ filter re (somes (map (derive_at ns (items w)) (seq i n))))%list,
   mkWorld (items w) (calls w ++ map CKey (seq i n))%list).
Proof.
  revert i r w. induction n as [|n IH]; intros i r w Hle; simpl.
  - unfold ret. rewrite !app_nil_r. now destruct w.
  - unfold bind at 1. unfold bind at 1. unfold LS.key at 1.
    unfold derive_at at 1.
    destruct (nth_error (physical_keys (items w)) i) as [k|] eqn:Ek.
    2:{ apply nth_error_None in Ek. unfold physical_keys in Ek.
        rewrite length_map in Ek. lia. }
    unfold derive, in_namespace, after_first_dot. fold ns.
    destruct (_ && _); simpl.
    + destruct (re _) eqn:Ere; unfold ret at 1; rewrite IH by (simpl; lia);
        simpl; unfold JS.push; rewrite <- !app_assoc; simpl;
        now rewrite Nat.add_1_r.
    + unfold ret at 1. rewrite IH by (simpl; lia). simpl.
      rewrite <- !app_assoc. simpl. now rewrite Nat.add_1_r.
Qed.

Lemma findKeys_run (pattern : string) (re : string -> bool) (w : World) :
  buildRe pattern = Some re ->
  findKeys buildRe this pattern w =
  (Return (filter re (namespace_keys ns (items w))),
   mkWorld (items w)
     (calls w ++ CLength :: map CKey (seq 0 (List.length (items w))))%list).
Proof.
  intros Hre. unfold findKeys. rewrite Hre. unfold bind at 1, LS.length at 1.
  rewrite findKeys_loop by (simpl; lia). simpl.
  unfold ns. rewrite derive_at_all. unfold namespace_keys.
  now rewrite <- app_assoc.
Qed.

End FindKeys.

(** ** The pattern compiler modelled from the spec meets its contract *)

Lemma all2_Forall2 (ps cs : list string) :
  FindKeysReBuilder.all2 ps cs = true <-> Forall2 segment_ok ps cs.
Proof.
  revert cs. induction ps as [|p ps IH]; intros [|c cs]; simpl.
  - split; [constructor | reflexivity].
  - split; [discriminate | intros H; inversion H].
  - split; [discriminate | intros H; inversion H].
  - rewrite andb_true_iff, IH. unfold FindKeysReBuilder.segment_okb.
    rewrite orb_true_iff, !String.eqb_eq. split.
    + intros [H1 H2]. now constructor.
    + intros H. inversion H; subst. now split.
Qed.

Lemma FindKeysReBuilder_contract : PatternCompiler FindKeysReBuilder.buildRe.
Proof.
  split.
  - intros p re. unfold FindKeysReBuilder.buildRe.
    destruct (existsb _ _); [discriminate|].
    intros [= <-] k. apply all2_Forall2.
  - intros p Hin. unfold FindKeysReBuilder.buildRe.
    replace (existsb FindKeysReBuilder.malformed (JS.split dot p)) with true;
      [reflexivity|].
    symmetry. apply existsb_exists. exists EmptyString. now split.
Qed.

(** ** Pattern search *)

Example findKeys_cars :
  result (findKeys FindKeysReBuilder.buildRe shop "cars.*.large") shop_world
  = Return ["cars.bmw.large"; "cars.ford.large"].
Proof. reflexivity. Qed.

Example findKeys_star :
  result (findKeys FindKeysReBuilder.buildRe (text_store "n") "*") ab_world
  = Return ["a"].
Proof. reflexivity. Qed.

(** What [findKeys] computes with a pattern that compiles: in backend
    order, the keys derived from the entries of the namespace that the
    compiled pattern accepts, a derived key being what follows the first
    dot of a stored key that starts with the namespace and a dot.  Only for
    a namespace without a dot are these the logical keys [k] stored under
    [namespace.k]. *)
Theorem findKeys_returns_matching_keys
  (buildRe : string -> option (string -> bool)) (V : Type)
  (this : SyncLocalStorage V) (pattern : string) (re : string -> bool)
  (w : World) :
  PatternCompiler buildRe ->
  buildRe pattern = Some re ->
  let r := filter re (namespace_keys (_ns this) (items w)) in
  result (findKeys buildRe this pattern) w = Return r
  /\ items (after (findKeys buildRe this pattern) w) = items w
  /\ (forall k, In k r <->
        exists pk, In pk (physical_keys (items w))
                   /\ StartsWith (_ns this ++ ".") pk
                   /\ AfterFirstDot pk k
                   /\ segments_match pattern k)
  /\ (dotless (_ns this) ->
      forall k, In k r <->
        In (_ns this ++ "." ++ k) (physical_keys (items w))
        /\ segments_match pattern k).
Proof.
  intros [Hmatch _] Hre r. unfold result, after.
  rewrite (findKeys_run buildRe this pattern re w Hre). simpl.
  subst r.
  split; [reflexivity|]. split; [reflexivity|]. split; [intros k; split|].
  - intros Hin. apply filter_In in Hin as [Hin Hk].
    apply In_namespace_keys in Hin as (pk & H1 & H2 & H3).
    exists pk. repeat split; auto. now apply (Hmatch _ _ Hre).
  - intros (pk & H1 & H2 & H3 & H4). apply filter_In. split.
    + apply In_namespace_keys. now exists pk.
    + now apply (Hmatch _ _ Hre).
  - intros Hns k. rewrite filter_In, (In_namespace_keys_dotless _ _ _ Hns).
    now rewrite (Hmatch _ _ Hre).
Qed.

Lemma findKeys_returns_matching_keys_witness :
  result (findKeys FindKeysReBuilder.buildRe shop "cars.*.large") shop_world
  = Return ["cars.bmw.large"; "cars.ford.large"]
  /\ (In "cars.bmw.large" ["cars.bmw.large"; "cars.ford.large"] <->
      In "shop.cars.bmw.large" (physical_keys (items shop_world))
      /\ segments_match "cars.*.large" "cars.bmw.large").
Proof.
  destruct (findKeys_returns_matching_keys
              FindKeysReBuilder.buildRe string shop "cars.*.large"
              (fun k => FindKeysReBuilder.all2 (JS.split dot "cars.*.large")
                          (JS.split dot k))
              shop_world FindKeysReBuilder_contract eq_refl)
    as (Hr & _ & _ & Hdotless).
  split; [exact Hr | exact (Hdotless eq_refl "cars.bmw.large")].
Defined.

(** C1.  [findKeys] on the store of namespace [a.b] holding the one
    entry [a.b.x], the logical key [x]: [getItem] reads [x], yet
    [findKeys] with the pattern [x] returns nothing, and with the pattern
    [*.*] it returns [b.x], a key of two segments that [getItem] cannot
    read.  Whatever the pattern compiler and the pattern, the stored key
    [x] is never returned. *)
Theorem findKeys_misses_key_of_dotted_namespace :
  let this := text_store "a.b" in
  let w := after (setItem this "x" "1") fresh in
  result (getItem this "x") w = Return "1"
  /\ segments_match "x" "x"
  /\ result (findKeys FindKeysReBuilder.buildRe this "x") w = Return []
  /\ result (findKeys FindKeysReBuilder.buildRe this "*.*") w = Return ["b.x"]
  /\ result (getItem this "b.x") w = Return "null"
  /\ forall buildRe pattern re,
       buildRe pattern = Some re ->
       exists r, result (findKeys buildRe this pattern) w = Return r
                 /\ ~ In "x" r.
Proof.
  intros this w.
  split; [reflexivity|].
  split; [constructor; [right; reflexivity | constructor]|].
  split; [reflexivity|]. split; [reflexivity|]. split; [reflexivity|].
  intros buildRe pattern re Hre. unfold result.
  rewrite (findKeys_run buildRe this pattern re w Hre).
  eexists. split; [reflexivity|]. intros Hin.
  apply filter_In in Hin as [Hin _]. simpl in Hin.
  destruct Hin as [E|[]]. discriminate E.
Qed.

Lemma findKeys_misses_key_of_dotted_namespace_witness :
  exists r,
    result (findKeys FindKeysReBuilder.buildRe (text_store "a.b") "*")
      (after (setItem (text_store "a.b") "x" "1") fresh) = Return r
    /\ ~ In "x" r.
Proof.
  apply (proj2 (proj2 (proj2 (proj2 (proj2
           findKeys_misses_key_of_dotted_namespace))))
           FindKeysReBuilder.buildRe "*"
           (fun k => FindKeysReBuilder.all2 (JS.split dot "*") (JS.split dot k))).
  reflexivity.
Defined.

(** C2.  When the pattern does not compile, [findKeys] throws an error
    whose message quotes the pattern, and the backend is as it was: its
    entries are the same and no call has been made on it. *)
Theorem findKeys_invalid_pattern_throws
  (buildRe : string -> option (string -> bool)) (V : Type)
  (this : SyncLocalStorage V) (pattern : string) (w : World) :
  buildRe pattern = None ->
  findKeys buildRe this pattern w =
  (Throw (Error ("You cannot find keys from the pattern '" ++ pattern ++ "'")), w).
Proof. intros H. unfold findKeys. now rewrite H. Qed.

Lemma findKeys_invalid_pattern_throws_witness :
  findKeys FindKeysReBuilder.buildRe shop "cars..large" shop_world =
  (Throw (Error "You cannot find keys from the pattern 'cars..large'"),
   shop_world)
  /\ findKeys FindKeysReBuilder.buildRe shop EmptyString shop_world =
     (Throw (Error "You cannot find keys from the pattern ''"), shop_world).
Proof.
  split.
  - apply (findKeys_invalid_pattern_throws
             FindKeysReBuilder.buildRe string shop "cars..large" shop_world).
    reflexivity.
  - apply (findKeys_invalid_pattern_throws
             FindKeysReBuilder.buildRe string shop EmptyString shop_world).
    reflexivity.
Defined.

(** Whatever pattern compiler meets the contract, a pattern with an empty
    segment, the empty pattern among them, does not compile. *)
Lemma empty_segment_rejected (buildRe : string -> option (string -> bool)) :
  PatternCompiler buildRe ->
  buildRe EmptyString = None /\ buildRe "cars..large" = None.
Proof.
  intros [_ H]. split; apply H; simpl; auto.
Qed.

(** ** Keys by index *)

Lemma AfterFirstDot_unique (pk k k' : string) :
  AfterFirstDot pk k -> AfterFirstDot pk k' -> k = k'.
Proof.
  intros (a & Ha & E) (a' & Ha' & E').
  rewrite <- (after_first_dot_spec a k Ha), <- E.
  now rewrite E', (after_first_dot_spec a' k' Ha').
Qed.

(** C3.  Where the backend has the key [pk] at index [i]: [key(i)] is
    [null] when [pk] does not start with the namespace and a dot, or is as
    long as the namespace; otherwise it is the part of [pk] after the first
    dot of [pk]. *)
Theorem key_derivation (V : Type) (this : SyncLocalStorage V)
  (i : nat) (w : World) (pk : string) :
  result (LS.key i) w = Return (Some pk) ->
  (~ StartsWith (_ns this ++ ".") pk \/ JS.length pk = JS.length (_ns this) ->
   result (key this i) w = Return None)
  /\ (StartsWith (_ns this ++ ".") pk ->
      JS.length pk <> JS.length (_ns this) ->
      exists k, AfterFirstDot pk k
                /\ result (key this i) w = Return (Some k)).
Proof.
  unfold result. rewrite key_run. unfold LS.key, derive_at. simpl.
  intros [= ->]. split.
  - intros [Hno|Hlen]; f_equal; apply derive_None; [exact Hno|].
    intros [t ->]. unfold JS.length in Hlen.
    rewrite !length_append in Hlen. simpl in Hlen. lia.
  - intros Hstart _. destruct (StartsWith_first_dot _ _ Hstart) as [k Hk].
    exists k. split; [exact Hk|]. f_equal. now apply derive_Some.
Qed.

Lemma key_derivation_witness :
  result (key shop 0) ab_world = Return None
  /\ exists k, AfterFirstDot "shop.cars.bmw.large" k
               /\ result (key shop 0) shop_world = Return (Some k).
Proof.
  split.
  - apply (key_derivation string shop 0 ab_world "n.a"); [reflexivity|].
    left. intros [t Ht]. discriminate Ht.
  - apply (key_derivation string shop 0 shop_world "shop.cars.bmw.large").
    + reflexivity.
    + exists "cars.bmw.large". reflexivity.
    + discriminate.
Defined.

(** The first dot need not be the one that ends the namespace: under the
    namespace [a.b] the entry [a.b.x] is listed as [b.x]. *)
Example key_dotted_namespace :
  result (key (text_store "a.b") 0)
    (after (setItem (text_store "a.b") "x" "1") fresh)
  = Return (Some "b.x").
Proof. reflexivity. Qed.

(** C10.  Where the backend's [key(i)] is [null], as at every index from
    the backend's length on, the store's [key(i)] returns [null]; it does
    not throw. *)
Theorem key_null_passthrough (V : Type) (this : SyncLocalStorage V)
  (i : nat) (w : World) :
  (result (LS.key i) w = Return None -> result (key this i) w = Return None)
  /\ (List.length (items w) <= i -> result (key this i) w = Return None).
Proof.
  unfold result. rewrite key_run. unfold LS.key, derive_at. simpl. split.
  - now intros [= ->].
  - intros Hle.
    replace (nth_error (physical_keys (items w)) i) with (@None string);
      [reflexivity|].
    symmetry. apply nth_error_None. unfold physical_keys.
    now rewrite length_map.
Qed.

Lemma key_null_passthrough_witness :
  result (key shop 3) shop_world = Return None
  /\ result (key shop 7) shop_world = Return None.
Proof.
  split.
  - apply (proj1 (key_null_passthrough string shop 3 shop_world)). reflexivity.
  - apply (proj2 (key_null_passthrough string shop 7 shop_world)).
    simpl. lia.
Defined.

(** C5.  [keys()] returns one entry per backend index, the entry at [i]
    being what [key(i)] returns: the list is as long as the backend, and
    holds [null] wherever the backend's key lies outside the namespace. *)
Theorem keys_positional (V : Type) (this : SyncLocalStorage V) (w : World) :
  exists r,
    result (keys this) w = Return r
    /\ List.length r = List.length (items w)
    /\ (forall i, i < List.length (items w) ->
          exists k, result (key this i) w = Return k /\ nth_error r i = Some k)
    /\ (forall i pk, nth_error (physical_keys (items w)) i = Some pk ->
          ~ StartsWith (_ns this ++ ".") pk -> nth_error r i = Some None).
Proof.
  unfold result. rewrite keys_run. simpl.
  exists (map (derive (_ns this)) (physical_keys (items w))).
  split; [reflexivity|]. split; [|split].
  - unfold physical_keys. now rewrite !length_map.
  - intros i Hi. rewrite key_run. simpl. unfold derive_at.
    rewrite nth_error_map.
    destruct (nth_error (physical_keys (items w)) i) as [pk|] eqn:E.
    + exists (derive (_ns this) pk). now split.
    + apply nth_error_None in E. unfold physical_keys in E.
      rewrite length_map in E. lia.
  - intros i pk E Hout. rewrite nth_error_map, E. simpl. f_equal.
    now apply derive_None.
Qed.

Example keys_mixed :
  result (keys shop) mixed_world = Return [Some "x"; None; Some "y"].
Proof. reflexivity. Qed.

Lemma keys_positional_witness :
  exists r,
    result (keys shop) mixed_world = Return r
    /\ List.length r = 3
    /\ nth_error r 0 = Some (Some "x")
    /\ nth_error r 1 = Some None.
Proof.
  destruct (keys_positional string shop mixed_world) as (r & Hr & Hlen & Hat & Hout).
  exists r. split; [exact Hr|]. split; [exact Hlen|]. split.
  - destruct (Hat 0) as (k & Hk & Hn); [simpl; lia|].
    rewrite Hn. f_equal. vm_compute in Hk. now injection Hk.
  - apply (Hout 1 "other.x"); [reflexivity|].
    intros [t Ht]. discriminate Ht.
Defined.

(** C6.  [getLength()] is the number of entries of the whole backend,
    whatever the namespace: entries of other namespaces are counted, so it
    can exceed the number of keys of the store's own namespace. *)
Theorem getLength_counts_whole_backend :
  (forall (V : Type) (this : SyncLocalStorage V) (w : World),
      result (getLength this) w = Return (List.length (items w))
      /\ List.length (namespace_keys (_ns this) (items w))
         <= List.length (items w))
  /\ result (getLength shop) mixed_world = Return 3
  /\ List.length (namespace_keys (_ns shop) (items mixed_world)) = 2.
Proof.
  split; [|split; reflexivity].
  intros V this w. split; [reflexivity|].
  unfold namespace_keys, physical_keys. rewrite map_map.
  induction (items w) as [|e es IH]; simpl; [lia|].
  destruct (derive (_ns this) (fst e)); simpl; lia.
Qed.

(** The empty logical key is a key like any other: the entry [shop.] is
    listed as the empty string, not as [null]. *)
Example key_empty_logical_key :
  result (key shop 0) (after (setItem shop EmptyString "1") fresh)
  = Return (Some EmptyString).
Proof. reflexivity. Qed.

(** ** Reading, writing and removing *)

(** C7.  Two stores with different namespaces on one backend: a [setItem]
    of key [k] through the first does not change what [getItem] of [k]
    returns through the second. *)
Theorem setItem_invisible_in_other_namespace (V1 V2 : Type)
  (s1 : SyncLocalStorage V1) (s2 : SyncLocalStorage V2)
  (k : string) (v : V1) (w : World) :
  _ns s1 <> _ns s2 ->
  result (getItem s2 k) (after (setItem s1 k v) w) = result (getItem s2 k) w.
Proof.
  intros Hns. unfold result, after, getItem, setItem, bind, LS.getItem,
    LS.setItem, ret. simpl.
  rewrite lookup_store_other; [reflexivity|].
  intros E. apply Hns. exact (append_inj_l _ _ _ E).
Qed.

Lemma setItem_invisible_in_other_namespace_witness :
  result (getItem (text_store "other") "x")
    (after (setItem shop "x" "1") fresh)
  = result (getItem (text_store "other") "x") fresh.
Proof.
  apply (setItem_invisible_in_other_namespace
           string string shop (text_store "other") "x" "1" fresh).
  discriminate.
Defined.

(** C8.  When unserializing the serialized [v] gives [v] back, [getItem]
    of [k] after [setItem] of [k] to [v] on the same store returns [v]. *)
Theorem setItem_getItem_roundtrip (V : Type) (this : SyncLocalStorage V)
  (k : string) (v : V) (w : World) :
  _unserialize this (Some (_serialize this v)) = v ->
  result (getItem this k) (after (setItem this k v) w) = Return v.
Proof.
  intros Hrt. unfold result, after, getItem, setItem, bind, LS.getItem,
    LS.setItem, ret. simpl.
  now rewrite lookup_store_same, Hrt.
Qed.

Lemma setItem_getItem_roundtrip_witness :
  result (getItem shop "cars.bmw.large")
    (after (setItem shop "cars.bmw.large" "9") shop_world)
  = Return "9".
Proof.
  apply (setItem_getItem_roundtrip
           string shop "cars.bmw.large" "9" shop_world).
  reflexivity.
Defined.

(** C9.  [getItem] of [k] after [removeItem] of [k] on the same store
    returns what the unserializer makes of [null], the backend's answer for
    a missing key. *)
Theorem removeItem_getItem_missing (V : Type) (this : SyncLocalStorage V)
  (k : string) (w : World) :
  result (LS.getItem (_ns this ++ "." ++ k)) (after (removeItem this k) w)
  = Return None
  /\ result (getItem this k) (after (removeItem this k) w)
     = Return (_unserialize this None).
Proof.
  unfold result, after, getItem, removeItem, bind, LS.getItem,
    LS.removeItem, ret. simpl.
  now rewrite lookup_discard_same.
Qed.

(** ** Clearing a namespace *)

Lemma filter_filter {A} (p q : A -> bool) (l : list A) :
  filter q (filter p l) = filter (fun x => p x && q x) l.
Proof.
  induction l as [|a l IH]; simpl; [reflexivity|].
  destruct (p a); simpl; [|exact IH].
  destruct (q a); now rewrite IH.
Qed.

Lemma filter_all {A} (l : list A) : filter (fun _ => true) l = l.
Proof. induction l as [|a l IH]; simpl; [reflexivity | now rewrite IH]. Qed.

Lemma fold_discard (f : string -> string) (ks : list string) (es : Entries) :
  fold_left (fun es k => discard (f k) es) ks es =
  filter (fun e => negb (existsb (fun k => String.eqb (fst e) (f k)) ks)) es.
Proof.
  revert es. induction ks as [|k ks IH]; intros es; simpl.
  - apply eq_sym, filter_all.
  - rewrite IH. unfold discard. rewrite filter_filter.
    apply filter_ext. intros e. now rewrite negb_orb.
Qed.

Section Clear.

Context {V : Type}.
Variable this : SyncLocalStorage V.

Let ns := _ns this.

Lemma removed_in_namespace (ks : list string) (e : string * string) :
  existsb (fun k => String.eqb (fst e) (physical this k)) ks = true ->
  in_namespace ns (fst e) = true.
Proof.
  intros H. apply existsb_exists in H as (k & _ & E).
  apply String.eqb_eq in E. rewrite E. apply in_namespace_iff.
  exists k. unfold physical. apply eq_sym, append_assoc.
Qed.

(** [clear] removes entries of its own namespace only, whatever the
    namespace: the entries outside it stay, in their order. *)
Lemma clear_frame (w : World) :
  filter (outside this) (items (after (clear this) w)) = filter (outside this) (items w).
Proof.
  unfold after. rewrite clear_run. simpl. rewrite fold_discard.
  rewrite filter_filter. apply filter_ext. intros e. unfold outside. fold ns.
  destruct (existsb _ _) eqn:E; simpl; [|reflexivity].
  now rewrite (removed_in_namespace _ _ E).
Qed.

(** [clear] reads the length and every key before it removes anything. *)
Lemma clear_calls (w : World) :
  calls (after (clear this) w) =
  (calls w ++ CLength :: map CKey (seq 0 (List.length (items w)))
     ++ map (fun k => CRemoveItem (physical this k))
          (namespace_keys ns (items w)))%list.
Proof. unfold after. now rewrite clear_run. Qed.

Hypothesis ns_dotless : dotless ns.

(** For a namespace without a dot, [clear] removes every entry of the
    namespace and nothing else. *)
Lemma clear_dotless (w : World) :
  result (clear this) w = Return tt
  /\ items (after (clear this) w) = filter (outside this) (items w).
Proof.
  unfold result, after. rewrite clear_run. simpl. split; [reflexivity|].
  rewrite fold_discard. apply filter_ext_in. intros e He. unfold outside. fold ns.
  f_equal. destruct (in_namespace ns (fst e)) eqn:E.
  - apply existsb_exists.
    destruct (derive ns (fst e)) as [k|] eqn:D.
    + exists k. split.
      * apply In_somes_map. exists (fst e). split; [|exact D].
        now apply in_map.
      * apply String.eqb_eq. exact (derive_dotless_inv _ _ _ ns_dotless D).
    + unfold derive in D. now rewrite E in D.
  - destruct (existsb _ _) eqn:X; [|reflexivity].
    now rewrite (removed_in_namespace _ _ X) in E.
Qed.

Lemma clear_dotless_keys (w : World) :
  exists r, result (keys this) (after (clear this) w) = Return r
            /\ Forall (fun k => k = None) r.
Proof.
  unfold result. rewrite keys_run. simpl.
  exists (map (derive ns) (physical_keys (items (after (clear this) w)))).
  split; [reflexivity|].
  rewrite (proj2 (clear_dotless w)).
  apply Forall_map, Forall_map, Forall_forall. intros e He.
  apply filter_In in He as [_ He]. unfold outside in He; fold ns in He.
  unfold derive. now destruct (in_namespace ns (fst e)).
Qed.

End Clear.

(** C4.  [clear()] on the store of namespace [a.b] holding the one entry
    [a.b.x]: the entry is listed as [b.x], [clear] removes [a.b.b.x], which
    is not there, and the entry [a.b.x] is still stored and still listed by
    [keys()] afterwards. *)
Theorem clear_keeps_entry_of_dotted_namespace :
  let this := text_store "a.b" in
  let w := after (setItem this "x" "1") fresh in
  result (keys this) w = Return [Some "b.x"]
  /\ calls (after (clear this) w)
     = [CSetItem "a.b.x" "1"; CLength; CKey 0; CRemoveItem "a.b.b.x"]
  /\ items (after (clear this) w) = [("a.b.x", "1")]
  /\ result (keys this) (after (clear this) w) = Return [Some "b.x"].
Proof. repeat split. Qed.

(** * Further properties of the methods *)

(** ** First segments and physical keys *)

Lemma append_inj_r (p a b : string) : p ++ a = p ++ b -> a = b.
Proof.
  induction p as [|x p IH]; simpl; intros H; [exact H|].
  injection H as H. now apply IH.
Qed.

Lemma first_segment_dotless (s : string) : dotless (first_segment s).
Proof.
  unfold dotless. induction s as [|a s IH]; simpl; [reflexivity|].
  destruct (Ascii.eqb a dot) eqn:E; simpl; [reflexivity|].
  now rewrite E, IH.
Qed.

Lemma first_segment_append (s t : string) :
  first_segment (s ++ String dot t) = first_segment s.
Proof.
  induction s as [|a s IH]; simpl; [reflexivity|].
  destruct (Ascii.eqb a dot); [reflexivity | now rewrite IH].
Qed.

Lemma first_segment_id (a : string) : dotless a -> first_segment a = a.
Proof.
  unfold dotless. induction a as [|x a IH]; simpl; intros H; [reflexivity|].
  apply orb_false_iff in H as [Hx Ha]. now rewrite Hx, (IH Ha).
Qed.

Lemma AfterFirstDot_first_segment (pk k : string) :
  AfterFirstDot pk k <-> pk = first_segment pk ++ "." ++ k.
Proof.
  split.
  - intros (a & Ha & E). rewrite E at 2.
    change ("." ++ k) with (String dot k).
    now rewrite first_segment_append, (first_segment_id _ Ha).
  - intros E. exists (first_segment pk). split; [|exact E].
    apply first_segment_dotless.
Qed.

Lemma first_segment_in_namespace (ns pk : string) :
  StartsWith (ns ++ ".") pk -> first_segment pk = first_segment ns.
Proof.
  intros [t ->]. rewrite append_assoc. change ("." ++ t) with (String dot t).
  apply first_segment_append.
Qed.

Lemma derive_first_segment (ns pk k : string) :
  derive ns pk = Some k <->
  StartsWith (ns ++ ".") pk /\ pk = first_segment ns ++ "." ++ k.
Proof.
  rewrite derive_Some, AfterFirstDot_first_segment. split.
  - intros [Hs E]. split; [exact Hs|].
    now rewrite <- (first_segment_in_namespace _ _ Hs).
  - intros [Hs E]. split; [exact Hs|].
    now rewrite (first_segment_in_namespace _ _ Hs).
Qed.

Lemma derive_inj (ns pk pk' k : string) :
  derive ns pk = Some k -> derive ns pk' = Some k -> pk = pk'.
Proof.
  intros H H'. apply derive_first_segment in H as [_ ->].
  now apply derive_first_segment in H' as [_ ->].
Qed.

Lemma physical_inj_dotless (ns ns' k k' : string) :
  dotless ns -> dotless ns' ->
  ns ++ "." ++ k = ns' ++ "." ++ k' -> ns = ns' /\ k = k'.
Proof.
  intros Hns Hns' E.
  assert (Hseg : ns = ns').
  { apply (f_equal first_segment) in E.
    change ("." ++ k) with (String dot k) in E.
    change ("." ++ k') with (String dot k') in E.
    rewrite !first_segment_append in E.
    now rewrite (first_segment_id _ Hns), (first_segment_id _ Hns') in E. }
  split; [exact Hseg|]. subst ns'. apply append_inj_r in E.
  now injection E.
Qed.

(** ** More on the backend *)

Lemma lookup_discard_other (k k' : string) (es : Entries) :
  k <> k' -> lookup k' (discard k es) = lookup k' es.
Proof.
  intros Hk. induction es as [|[k0 v0] es IH]; simpl; [reflexivity|].
  destruct (String.eqb_spec k0 k) as [->|Hne]; simpl.
  - apply String.eqb_neq in Hk. now rewrite Hk.
  - now rewrite IH.
Qed.

Lemma In_physical_keys_store (k v : string) (es : Entries) :
  In k (physical_keys (store k v es)).
Proof.
  rewrite physical_keys_store.
  destruct (in_dec string_dec k (physical_keys es)) as [H|_]; [exact H|].
  apply in_or_app. right. now left.
Qed.

Lemma lookup_at_index (es : Entries) (i : nat) (k v : string) :
  well_formed es -> nth_error es i = Some (k, v) -> lookup k es = Some v.
Proof.
  unfold well_formed. revert i.
  induction es as [|[k0 v0] es IH]; intros [|i] Hwf H; simpl in *;
    try discriminate.
  - injection H as -> ->. now rewrite String.eqb_refl.
  - inversion Hwf as [|? ? Hnotin Hwf']; subst.
    destruct (String.eqb_spec k0 k) as [->|_].
    + exfalso. apply Hnotin. apply nth_error_In in H.
      now apply (in_map fst) in H.
    + exact (IH i Hwf' H).
Qed.

Lemma lookup_filter (p : string * string -> bool) (k : string) (es : Entries) :
  (forall e, In e es -> fst e = k -> p e = true) ->
  lookup k (filter p es) = lookup k es.
Proof.
  induction es as [|[k0 v0] es IH]; intros Hp; simpl; [reflexivity|].
  destruct (p (k0, v0)) eqn:E; simpl.
  - rewrite IH; [reflexivity|]. intros e He. apply Hp. now right.
  - destruct (String.eqb_spec k0 k) as [->|_].
    + rewrite Hp in E; [discriminate | now left | reflexivity].
    + apply IH. intros e He. apply Hp. now right.
Qed.

Lemma lookup_filter_out (p : string * string -> bool) (k : string) (es : Entries) :
  (forall e, In e es -> fst e = k -> p e = false) ->
  lookup k (filter p es) = None.
Proof.
  induction es as [|[k0 v0] es IH]; intros Hp; simpl; [reflexivity|].
  destruct (p (k0, v0)) eqn:E; simpl.
  - destruct (String.eqb_spec k0 k) as [->|_].
    + rewrite Hp in E; [discriminate | now left | reflexivity].
    + apply IH. intros e He. apply Hp. now right.
  - apply IH. intros e He. apply Hp. now right.
Qed.

Lemma filter_id {A} (p : A -> bool) (l : list A) :
  (forall x, In x l -> p x = true) -> filter p l = l.
Proof.
  induction l as [|a l IH]; intros H; simpl; [reflexivity|].
  rewrite (H a (or_introl eq_refl)). f_equal. apply IH.
  intros x Hx. apply H. now right.
Qed.

Lemma NoDup_somes_map {A B} (f : A -> option B) (l : list A) :
  NoDup l ->
  (forall x y b, In x l -> In y l -> f x = Some b -> f y = Some b -> x = y) ->
  NoDup (somes (map f l)).
Proof.
  induction l as [|a l IH]; intros Hnd Hinj; simpl; [constructor|].
  inversion Hnd as [|? ? Hnotin Hnd']; subst.
  assert (IH' : NoDup (somes (map f l))).
  { apply IH; [exact Hnd'|]. intros x y b Hx Hy. apply Hinj; now right. }
  destruct (f a) as [b|] eqn:E; [|exact IH'].
  constructor; [|exact IH'].
  intros Hin. apply In_somes_map in Hin as (x & Hx & Hfx).
  apply Hnotin. rewrite (Hinj a x b); auto. now left. now right.
Qed.

(** ** Keys by index, continued *)

(** X1.  [key(i)] returns [k] exactly when the backend's key at [i] starts
    with the namespace and a dot and is the first segment of the
    namespace, a dot and [k]: what [key] strips is the namespace's first
    segment, whatever follows it in the namespace stays in the key. *)
Theorem key_strips_first_segment (V : Type) (this : SyncLocalStorage V)
  (i : nat) (w : World) (k : string) :
  result (key this i) w = Return (Some k) <->
  exists pk, result (LS.key i) w = Return (Some pk)
             /\ StartsWith (_ns this ++ ".") pk
             /\ pk = first_segment (_ns this) ++ "." ++ k.
Proof.
  unfold result. rewrite key_run. unfold LS.key, derive_at. simpl.
  destruct (nth_error (physical_keys (items w)) i) as [pk|]; split.
  - intros [= H]. exists pk. split; [reflexivity|].
    now apply derive_first_segment.
  - intros (pk' & [= <-] & H). f_equal. now apply derive_first_segment.
  - discriminate.
  - intros (pk' & [=] & _).
Qed.

(** X2.  For a namespace without a dot, [key(i)] returns [k] exactly when
    the backend's key at [i] is the namespace, a dot and [k]: the key
    listed is the key [setItem] and [getItem] take. *)
Theorem key_dotless_exact (V : Type) (this : SyncLocalStorage V)
  (i : nat) (w : World) (k : string) :
  dotless (_ns this) ->
  (result (key this i) w = Return (Some k) <->
   result (LS.key i) w = Return (Some (physical this k))).
Proof.
  intros Hns. unfold result. rewrite key_run. unfold LS.key, derive_at, physical.
  simpl. destruct (nth_error (physical_keys (items w)) i) as [pk|]; split;
    try discriminate.
  - intros [= H]. now rewrite (derive_dotless_inv _ _ _ Hns H).
  - intros [= ->]. f_equal. now apply derive_dotless.
Qed.

Lemma key_dotless_exact_witness :
  result (key shop 1) shop_world = Return (Some "cars.ford.large") <->
  result (LS.key 1) shop_world = Return (Some (physical shop "cars.ford.large")).
Proof.
  apply (key_dotless_exact string shop 1 shop_world "cars.ford.large").
  reflexivity.
Defined.

(** X3.  For a namespace without a dot and a backend without duplicate
    keys: when [key(i)] returns [k], [getItem(k)] returns the unserialized
    value of the backend's entry at [i]. *)
Theorem key_getItem_agree (V : Type) (this : SyncLocalStorage V)
  (i : nat) (w : World) (pk v k : string) :
  dotless (_ns this) ->
  well_formed (items w) ->
  nth_error (items w) i = Some (pk, v) ->
  result (key this i) w = Return (Some k) ->
  result (getItem this k) w = Return (_unserialize this (Some v)).
Proof.
  intros Hns Hwf Hi Hk.
  assert (E : pk = physical this k).
  { unfold result in Hk. rewrite key_run in Hk.
    unfold derive_at, physical_keys in Hk. simpl in Hk.
    rewrite nth_error_map, Hi in Hk. simpl in Hk. injection Hk as Hk.
    exact (derive_dotless_inv _ _ _ Hns Hk). }
  unfold result, getItem, bind, LS.getItem, ret. simpl.
  replace (lookup _ (items w)) with (lookup pk (items w))
    by (rewrite E; reflexivity).
  now rewrite (lookup_at_index _ _ _ _ Hwf Hi).
Qed.

Lemma key_getItem_agree_witness :
  result (getItem shop "cars.ford.large") shop_world = Return "2".
Proof.
  apply (key_getItem_agree string shop 1 shop_world
           "shop.cars.ford.large" "2" "cars.ford.large").
  - reflexivity.
  - unfold well_formed. simpl.
    repeat constructor; simpl; intuition discriminate.
  - reflexivity.
  - reflexivity.
Defined.

(** X4.  For a namespace without a dot, after [setItem(k, v)] the key [k]
    is among the entries of [keys()]. *)
Theorem setItem_key_listed (V : Type) (this : SyncLocalStorage V)
  (k : string) (v : V) (w : World) :
  dotless (_ns this) ->
  exists r, result (keys this) (after (setItem this k v) w) = Return r
            /\ In (Some k) r.
Proof.
  intros Hns. unfold result. rewrite keys_run.
  eexists. split; [reflexivity|].
  rewrite <- (derive_dotless _ k Hns). apply in_map.
  unfold after, setItem, LS.setItem. simpl. apply In_physical_keys_store.
Qed.

Lemma setItem_key_listed_witness :
  exists r, result (keys shop) (after (setItem shop "bikes" "4") shop_world)
            = Return r
            /\ In (Some "bikes") r.
Proof.
  apply (setItem_key_listed string shop "bikes" "4" shop_world). reflexivity.
Defined.

(** X5.  For a namespace without a dot, after [removeItem(k)] the key [k]
    is not among the entries of [keys()], and every other key is listed iff
    it was listed before. *)
Theorem removeItem_key_unlisted (V : Type) (this : SyncLocalStorage V)
  (k : string) (w : World) :
  dotless (_ns this) ->
  exists r0 r,
    result (keys this) w = Return r0
    /\ result (keys this) (after (removeItem this k) w) = Return r
    /\ ~ In (Some k) r
    /\ forall k', k' <> k -> (In (Some k') r <-> In (Some k') r0).
Proof.
  intros Hns. unfold result. rewrite !keys_run.
  eexists. eexists. split; [reflexivity|]. split; [reflexivity|].
  unfold after, removeItem, LS.removeItem. simpl.
  rewrite physical_keys_discard. split.
  - intros Hin. apply in_map_iff in Hin as (pk & Hd & Hpk).
    apply filter_In in Hpk as [_ Hne].
    rewrite (derive_dotless_inv _ _ _ Hns Hd), String.eqb_refl in Hne.
    discriminate.
  - intros k' Hk'. rewrite !in_map_iff. split.
    + intros (pk & Hd & Hpk). exists pk. split; [exact Hd|].
      now apply filter_In in Hpk.
    + intros (pk & Hd & Hpk). exists pk. split; [exact Hd|].
      apply filter_In. split; [exact Hpk|].
      apply negb_true_iff, String.eqb_neq.
      rewrite (derive_dotless_inv _ _ _ Hns Hd). intros E.
      apply append_inj_r in E. now injection E.
Qed.

Lemma removeItem_key_unlisted_witness :
  exists r0 r,
    result (keys shop) shop_world = Return r0
    /\ result (keys shop) (after (removeItem shop "cars.ford.large") shop_world)
       = Return r
    /\ ~ In (Some "cars.ford.large") r
    /\ forall k', k' <> "cars.ford.large" -> (In (Some k') r <-> In (Some k') r0).
Proof.
  apply (removeItem_key_unlisted string shop "cars.ford.large" shop_world).
  reflexivity.
Defined.

(** ** Pattern search, continued *)

(** X6.  With a pattern that compiles, [findKeys] returns the non-null
    entries of [keys()] that the compiled pattern accepts, in the same
    order: its own derivation of the keys agrees with that of [key]. *)
Theorem findKeys_filters_keys
  (buildRe : string -> option (string -> bool)) (V : Type)
  (this : SyncLocalStorage V) (pattern : string) (re : string -> bool)
  (w : World) :
  buildRe pattern = Some re ->
  exists r, result (keys this) w = Return r
            /\ result (findKeys buildRe this pattern) w
               = Return (filter re (somes r)).
Proof.
  intros Hre. unfold result.
  rewrite keys_run, (findKeys_run buildRe this pattern re w Hre).
  eexists. split; reflexivity.
Qed.

Lemma findKeys_filters_keys_witness :
  exists r, result (keys shop) shop_world = Return r
            /\ result (findKeys FindKeysReBuilder.buildRe shop "cars.*.large")
                 shop_world
               = Return (filter (fun k => FindKeysReBuilder.all2
                                            (JS.split dot "cars.*.large")
                                            (JS.split dot k))
                           (somes r)).
Proof.
  apply (findKeys_filters_keys FindKeysReBuilder.buildRe string shop
           "cars.*.large" _ shop_world).
  reflexivity.
Defined.

(** X7.  On a backend without duplicate keys, no key appears twice among
    the non-null entries of [keys()], nor in the result of [findKeys],
    whatever the namespace. *)
Theorem listed_keys_distinct (V : Type) (this : SyncLocalStorage V)
  (w : World) :
  well_formed (items w) ->
  (exists r, result (keys this) w = Return r /\ NoDup (somes r))
  /\ (forall buildRe pattern re,
         buildRe pattern = Some re ->
         exists r, result (findKeys buildRe this pattern) w = Return r
                   /\ NoDup r).
Proof.
  intros Hwf.
  assert (Hnd : NoDup (namespace_keys (_ns this) (items w))).
  { apply NoDup_somes_map; [exact Hwf|].
    intros x y b _ _. apply derive_inj. }
  split.
  - unfold result. rewrite keys_run. eexists. split; [reflexivity | exact Hnd].
  - intros buildRe pattern re Hre. unfold result.
    rewrite (findKeys_run buildRe this pattern re w Hre).
    eexists. split; [reflexivity|]. now apply NoDup_filter.
Qed.

Lemma listed_keys_distinct_witness :
  exists r, result (keys shop) mixed_world = Return r /\ NoDup (somes r).
Proof.
  apply (listed_keys_distinct string shop mixed_world).
  unfold well_formed. simpl.
  repeat constructor; simpl; intuition discriminate.
Defined.

(** X8.  For a namespace without a dot: after [setItem(k, v)], [findKeys]
    returns [k] for every compiled pattern that accepts [k]; after
    [removeItem(k)], no [findKeys] returns [k]. *)
Theorem findKeys_follows_setItem_removeItem
  (buildRe : string -> option (string -> bool)) (V : Type)
  (this : SyncLocalStorage V) (pattern : string) (re : string -> bool)
  (k : string) (w : World) :
  dotless (_ns this) ->
  buildRe pattern = Some re ->
  (forall v, re k = true ->
     exists r, result (findKeys buildRe this pattern)
                 (after (setItem this k v) w) = Return r
               /\ In k r)
  /\ (exists r, result (findKeys buildRe this pattern)
                  (after (removeItem this k) w) = Return r
                /\ ~ In k r).
Proof.
  intros Hns Hre. split.
  - intros v Hk. unfold result.
    rewrite (findKeys_run buildRe this pattern re _ Hre).
    eexists. split; [reflexivity|]. apply filter_In. split; [|exact Hk].
    apply (In_namespace_keys_dotless _ _ _ Hns).
    unfold after, setItem, LS.setItem. simpl. apply In_physical_keys_store.
  - unfold result. rewrite (findKeys_run buildRe this pattern re _ Hre).
    eexists. split; [reflexivity|]. intros Hin.
    apply filter_In in Hin as [Hin _].
    apply (In_namespace_keys_dotless _ _ _ Hns) in Hin.
    unfold after, removeItem, LS.removeItem in Hin. simpl in Hin.
    rewrite physical_keys_discard in Hin. apply filter_In in Hin as [_ Hne].
    rewrite String.eqb_refl in Hne. discriminate.
Qed.

Lemma findKeys_follows_setItem_removeItem_witness :
  (exists r, result (findKeys FindKeysReBuilder.buildRe shop "cars.*.large")
               (after (setItem shop "cars.kia.large" "5") shop_world) = Return r
             /\ In "cars.kia.large" r)
  /\ (exists r, result (findKeys FindKeysReBuilder.buildRe shop "cars.*.large")
                  (after (removeItem shop "cars.bmw.large") shop_world) = Return r
                /\ ~ In "cars.bmw.large" r).
Proof.
  split.
  - apply (findKeys_follows_setItem_removeItem FindKeysReBuilder.buildRe string
             shop "cars.*.large"
             (fun k => FindKeysReBuilder.all2 (JS.split dot "cars.*.large")
                         (JS.split dot k))
             "cars.kia.large" shop_world eq_refl eq_refl).
    reflexivity.
  - apply (findKeys_follows_setItem_removeItem FindKeysReBuilder.buildRe string
             shop "cars.*.large"
             (fun k => FindKeysReBuilder.all2 (JS.split dot "cars.*.large")
                         (JS.split dot k))
             "cars.bmw.large" shop_world eq_refl eq_refl).
Defined.

(** ** Clearing a namespace, continued *)

Lemma clear_items {V} (this : SyncLocalStorage V) (w : World) :
  items (after (clear this) w) =
  filter (fun e => negb (existsb (fun k => String.eqb (fst e) (physical this k))
                           (namespace_keys (_ns this) (items w))))
    (items w).
Proof. unfold after. rewrite clear_run. simpl. apply fold_discard. Qed.

(** X9.  A second [clear()] removes nothing: the entries after two calls
    are the entries after one, whatever the namespace. *)
Theorem clear_idempotent (V : Type) (this : SyncLocalStorage V) (w : World) :
  items (after (clear this) (after (clear this) w))
  = items (after (clear this) w).
Proof.
  rewrite (clear_items this (after (clear this) w)).
  apply filter_id. intros e He. apply negb_true_iff.
  destruct (existsb _ _) eqn:X; [exfalso | reflexivity].
  apply existsb_exists in X as (k & Hk & E).
  rewrite clear_items in He. apply filter_In in He as [_ He].
  apply negb_true_iff in He.
  assert (X : existsb (fun k => String.eqb (fst e) (physical this k))
                (namespace_keys (_ns this) (items w)) = true);
    [|rewrite X in He; discriminate].
  apply existsb_exists. exists k. split; [|exact E].
  apply In_somes_map in Hk as (pk & Hpk & Hd).
  apply In_somes_map. exists pk. split; [|exact Hd].
  rewrite clear_items in Hpk. unfold physical_keys in *.
  apply in_map_iff in Hpk as (e' & <- & He').
  apply filter_In in He' as [He' _]. now apply in_map.
Qed.

(** X10.  [clear()] touches its own namespace only: the entries whose key
    does not start with the namespace and a dot are the same, in the same
    order, and the backend's value under such a key is unchanged. *)
Theorem clear_spares_other_entries (V : Type) (this : SyncLocalStorage V)
  (w : World) :
  filter (outside this) (items (after (clear this) w))
  = filter (outside this) (items w)
  /\ forall pk, ~ StartsWith (_ns this ++ ".") pk ->
       lookup pk (items (after (clear this) w)) = lookup pk (items w).
Proof.
  split; [apply clear_frame|].
  intros pk Hout. rewrite clear_items. apply lookup_filter.
  intros e _ Hk. apply negb_true_iff.
  destruct (existsb _ _) eqn:X; [exfalso | reflexivity].
  apply removed_in_namespace, in_namespace_iff in X.
  rewrite Hk in X. exact (Hout X).
Qed.

Lemma clear_spares_other_entries_witness :
  lookup "other.x" (items (after (clear shop) mixed_world))
  = lookup "other.x" (items mixed_world).
Proof.
  apply (proj2 (clear_spares_other_entries string shop mixed_world)).
  intros [t Ht]. discriminate Ht.
Defined.

(** X11.  For a namespace without a dot, [clear()] returns, removes every
    entry whose key starts with the namespace and a dot and no other, and
    [keys()] holds only [null] afterwards. *)
Theorem clear_dotless_exact (V : Type) (this : SyncLocalStorage V)
  (w : World) :
  dotless (_ns this) ->
  result (clear this) w = Return tt
  /\ items (after (clear this) w) = filter (outside this) (items w)
  /\ exists r, result (keys this) (after (clear this) w) = Return r
               /\ Forall (fun k => k = None) r.
Proof.
  intros Hns. destruct (clear_dotless this Hns w) as [Hr Hi].
  split; [exact Hr|]. split; [exact Hi|].
  exact (clear_dotless_keys this Hns w).
Qed.

Lemma clear_dotless_exact_witness :
  result (clear shop) mixed_world = Return tt
  /\ items (after (clear shop) mixed_world) = [("other.x", "2")]
  /\ exists r, result (keys shop) (after (clear shop) mixed_world) = Return r
               /\ Forall (fun k => k = None) r.
Proof.
  apply (clear_dotless_exact string shop mixed_world). reflexivity.
Defined.

(** X12.  For a namespace without a dot, after [clear()] every [getItem]
    returns what the unserializer makes of [null]. *)
Theorem clear_then_getItem (V : Type) (this : SyncLocalStorage V)
  (k : string) (w : World) :
  dotless (_ns this) ->
  result (getItem this k) (after (clear this) w)
  = Return (_unserialize this None).
Proof.
  intros Hns. unfold result, getItem, bind, LS.getItem, ret. simpl.
  rewrite (proj2 (clear_dotless this Hns w)).
  rewrite lookup_filter_out; [reflexivity|].
  intros e _ Hk. unfold outside. apply negb_false_iff, in_namespace_iff.
  rewrite Hk. exists k. apply eq_sym, append_assoc.
Qed.

Lemma clear_then_getItem_witness :
  result (getItem shop "cars.bmw.large") (after (clear shop) shop_world)
  = Return "null".
Proof.
  apply (clear_then_getItem string shop "cars.bmw.large" shop_world).
  reflexivity.
Defined.

(** X13.  The calls [clear()] makes on the backend: the length once, then
    [key(i)] for every index in order, then one [removeItem] per non-null
    entry of [keys()], in order.  Every key is read before anything is
    removed, and [clear] neither reads nor writes a value. *)
Theorem clear_call_sequence (V : Type) (this : SyncLocalStorage V)
  (w : World) :
  exists r,
    result (keys this) w = Return r
    /\ calls (after (clear this) w) =
       (calls w
        ++ CLength :: map CKey (seq 0 (List.length (items w)))
        ++ map (fun k => CRemoveItem (physical this k)) (somes r))%list.
Proof.
  unfold result. rewrite keys_run. eexists. split; [reflexivity|].
  apply clear_calls.
Qed.

(** ** Reading, writing and removing, continued *)

(** X14.  Two stores whose namespaces differ and hold no dot share
    nothing: [setItem] or [removeItem] of any key through the first does
    not change what [getItem] of any key returns through the second. *)
Theorem dotless_namespaces_isolated (V1 V2 : Type)
  (s1 : SyncLocalStorage V1) (s2 : SyncLocalStorage V2)
  (k1 k2 : string) (w : World) :
  dotless (_ns s1) -> dotless (_ns s2) -> _ns s1 <> _ns s2 ->
  (forall v, result (getItem s2 k2) (after (setItem s1 k1 v) w)
             = result (getItem s2 k2) w)
  /\ result (getItem s2 k2) (after (removeItem s1 k1) w)
     = result (getItem s2 k2) w.
Proof.
  intros H1 H2 Hne.
  assert (Hk : _ns s1 ++ "." ++ k1 <> _ns s2 ++ "." ++ k2).
  { intros E. now apply physical_inj_dotless in E as [E _]. }
  unfold result, after, getItem, setItem, removeItem, bind, LS.getItem,
    LS.setItem, LS.removeItem, ret. simpl. split.
  - intros v. now rewrite lookup_store_other.
  - now rewrite lookup_discard_other.
Qed.

Lemma dotless_namespaces_isolated_witness :
  (forall v, result (getItem (text_store "other") "x")
               (after (setItem shop "cars.x" v) mixed_world)
             = result (getItem (text_store "other") "x") mixed_world)
  /\ result (getItem (text_store "other") "x")
       (after (removeItem shop "x") mixed_world)
     = result (getItem (text_store "other") "x") mixed_world.
Proof.
  split.
  - apply (dotless_namespaces_isolated string string shop (text_store "other")
             "cars.x" "x" mixed_world); try reflexivity. discriminate.
  - apply (dotless_namespaces_isolated string string shop (text_store "other")
             "x" "x" mixed_world); try reflexivity. discriminate.
Defined.

(** Namespaces with a dot are not isolated in this way: the key [b.c] of
    namespace [a] is the key [c] of namespace [a.b]. *)
Example dotted_namespaces_overlap :
  result (getItem (text_store "a.b") "c")
    (after (setItem (text_store "a") "b.c" "1") fresh)
  = Return "1".
Proof. reflexivity. Qed.

(** X15.  Within one store, [setItem] or [removeItem] of a key does not
    change what [getItem] returns for any other key. *)
Theorem other_key_untouched (V : Type) (this : SyncLocalStorage V)
  (k1 k2 : string) (w : World) :
  k1 <> k2 ->
  (forall v, result (getItem this k2) (after (setItem this k1 v) w)
             = result (getItem this k2) w)
  /\ result (getItem this k2) (after (removeItem this k1) w)
     = result (getItem this k2) w.
Proof.
  intros Hne.
  assert (Hk : _ns this ++ "." ++ k1 <> _ns this ++ "." ++ k2).
  { intros E. apply append_inj_r in E. now injection E. }
  unfold result, after, getItem, setItem, removeItem, bind, LS.getItem,
    LS.setItem, LS.removeItem, ret. simpl. split.
  - intros v. now rewrite lookup_store_other.
  - now rewrite lookup_discard_other.
Qed.

Lemma other_key_untouched_witness :
  (forall v, result (getItem shop "cars.ford.large")
               (after (setItem shop "cars.bmw.large" v) shop_world)
             = result (getItem shop "cars.ford.large") shop_world)
  /\ result (getItem shop "cars.ford.large")
       (after (removeItem shop "cars.bmw.large") shop_world)
     = result (getItem shop "cars.ford.large") shop_world.
Proof.
  apply (other_key_untouched string shop "cars.bmw.large" "cars.ford.large"
           shop_world).
  discriminate.
Defined.

(** X16.  The reading methods leave the backend's entries as they are:
    [getLength], [key], [keys], [getItem] and [findKeys], whether its
    pattern compiles or not. *)
Theorem reads_leave_entries (V : Type) (this : SyncLocalStorage V)
  (w : World) :
  items (after (getLength this) w) = items w
  /\ (forall i, items (after (key this i) w) = items w)
  /\ items (after (keys this) w) = items w
  /\ (forall k, items (after (getItem this k) w) = items w)
  /\ (forall buildRe pattern,
        items (after (findKeys buildRe this pattern) w) = items w).
Proof.
  unfold after. repeat split.
  - intros i. now rewrite key_run.
  - now rewrite keys_run.
  - intros buildRe pattern. destruct (buildRe pattern) as [re|] eqn:E.
    + now rewrite (findKeys_run buildRe this pattern re w E).
    + unfold findKeys. now rewrite E.
Qed.

Lemma lookup_In (k : string) (es : Entries) :
  In k (physical_keys es) -> exists v, lookup k es = Some v.
Proof.
  induction es as [|[k0 v0] es IH]; simpl; [tauto|].
  destruct (String.eqb_spec k0 k) as [->|Hne].
  - intros _. now exists v0.
  - intros [E|Hin]; [congruence | exact (IH Hin)].
Qed.

(** X17.  For a namespace without a dot, every key [findKeys] returns can
    be read back: the backend holds a value under the namespace, a dot and
    the key, and [getItem] of the key returns that value unserialized. *)
Theorem findKeys_keys_readable
  (buildRe : string -> option (string -> bool)) (V : Type)
  (this : SyncLocalStorage V) (pattern : string) (re : string -> bool)
  (w : World) :
  dotless (_ns this) ->
  buildRe pattern = Some re ->
  exists r,
    result (findKeys buildRe this pattern) w = Return r
    /\ forall k, In k r ->
         exists v, lookup (physical this k) (items w) = Some v
                   /\ result (getItem this k) w
                      = Return (_unserialize this (Some v)).
Proof.
  intros Hns Hre. unfold result.
  rewrite (findKeys_run buildRe this pattern re w Hre).
  eexists. split; [reflexivity|]. intros k Hin.
  apply filter_In in Hin as [Hin _].
  apply (In_namespace_keys_dotless _ _ _ Hns) in Hin.
  destruct (lookup_In _ _ Hin) as [v Hv]. exists v. split; [exact Hv|].
  unfold getItem, bind, LS.getItem, ret. simpl.
  unfold physical in Hv. simpl in Hv. now rewrite Hv.
Qed.

Lemma findKeys_keys_readable_witness :
  exists r,
    result (findKeys FindKeysReBuilder.buildRe shop "cars.*.large") shop_world
    = Return r
    /\ forall k, In k r ->
         exists v, lookup (physical shop k) (items shop_world) = Some v
                   /\ result (getItem shop k) shop_world
                      = Return (_unserialize shop (Some v)).
Proof.
  apply (findKeys_keys_readable FindKeysReBuilder.buildRe string shop
           "cars.*.large"
           (fun k => FindKeysReBuilder.all2 (JS.split dot "cars.*.large")
                       (JS.split dot k))
           shop_world); reflexivity.
Defined.
